(** * mlpack: exponential loss (AdaBoost) and softmax regression

    A shallow embedding of
      - [methods/adaboost/loss_functions/exponential.hpp]
        ([ExponentialLoss::Calculate]), and
      - [methods/softmax_regression/softmax_regression.hpp]
        (the [SoftmaxRegression] class: its fields, accessors and
        [FeatureSize]; the bodies of [Train] and [Classify] live in
        [softmax_regression_impl.hpp] and are modelled from the
        specification).

    Numbers.  [double] is idealised as a real number ([R]): no rounding,
    no NaN, no infinities.  [size_t] and [arma::uword] are unsigned
    integers of [w] bits; where the code subtracts on them the wrap-around
    is written out on [Z]. *)

From Stdlib Require Import String.
From Stdlib Require Import Reals Lra List ZArith Lia Bool PeanoNat Permutation.
Import ListNotations.

Open Scope R_scope.

(** ** Outcomes of a call *)

(** The exceptions a call can end with. *)
Inductive error : Type :=
| LogicError          (* std::logic_error raised by Armadillo *)
| InvalidInput
| DimensionMismatch.

(** A call either returns a value or raises. *)
Inductive result (A : Type) : Type :=
| Ok (a : A)
| Error (e : error).

Arguments Ok {A} a.
Arguments Error {A} e.

Definition bind {A B : Type} (r : result A) (k : A -> result B) : result B :=
  match r with
  | Ok a => k a
  | Error e => Error e
  end.

Notation "x <- r ;; k" := (bind r (fun x => k))
  (at level 61, r at next level, right associativity).

(** ** The Armadillo operations the code calls *)

Module arma.

(** [arma::vec] / [arma::rowvec] with [elem_type = double]. *)
Definition vec : Type := list R.

(** One iteration of the scan of [op_max::direct_max]:
    [if (X[i] > max_val) max_val = X[i];]. *)
Definition max_step (max_val x : R) : R :=
  if Rgt_dec x max_val then x else max_val.

(** [arma::max(V)] on a vector: the scan over the entries, the running
    maximum being the first entry after the first iteration.  On an object
    without elements Armadillo raises [std::logic_error]
    ("max(): object has no elements"). *)
Definition max (v : vec) : result R :=
  match v with
  | [] => Error LogicError
  | x :: xs => Ok (fold_left max_step xs x)
  end.

(** [arma::abs(V)], elementwise. *)
Definition abs (v : vec) : vec := map Rabs v.

(** Unary minus [-V], elementwise. *)
Definition neg (v : vec) : vec := map Ropp v.

(** [V / k], every element divided by the scalar. *)
Definition div_scalar (v : vec) (k : R) : vec := map (fun x => x / k) v.

(** [arma::exp(V)], elementwise. *)
Definition exp (v : vec) : vec := map Rtrigo_def.exp v.

(** [k - V], the scalar minus every element. *)
Definition scalar_minus (k : R) (v : vec) : vec := map (fun x => k - x) v.

(** [arma::accu(V)], the sum of the elements. *)
Definition accu (v : vec) : R := fold_right Rplus 0 v.

End arma.

(** ** [class ExponentialLoss] *)

Module ExponentialLoss.

(** Lines 32-35 of [Calculate]: the denominator.
<<
    typename VecType::elem_type max_error = arma::max(error_vec);
    // To avoid dividing by zero
    if(max_error == 0)
      max_error = 1;
>> *)
Definition max_error (error_vec : arma.vec) : result R :=
  max_error <- arma.max error_vec ;;
  Ok (if Req_dec_T max_error 0 then 1 else max_error).

(** [static VecType Calculate (const VecType& error_vec)]:
<<
    VecType loss = 1 - arma::exp( -(arma::abs(error_vec)) / max_error );
    return loss;
>> *)
Definition Calculate (error_vec : arma.vec) : result arma.vec :=
  max_error <- max_error error_vec ;;
  let loss :=
    arma.scalar_minus 1
      (arma.exp (arma.div_scalar (arma.neg (arma.abs error_vec)) max_error)) in
  Ok loss.

End ExponentialLoss.

(** ** Dense matrices *)

Module mat.

(** [arma::mat]: a dense matrix of [double], stored column by column as
    Armadillo does.  Every column holds [n_rows] entries. *)
Record t : Type := Mat {
  n_rows : nat;
  cols : list (list R)
}.

(** [M.n_cols]. *)
Definition n_cols (m : t) : nat := length (cols m).

(** [M(i, j)]. *)
Definition at_ (m : t) (i j : nat) : R := nth i (nth j (cols m) []) 0.

(** [M.col(j)] and [M.row(i)]. *)
Definition col (m : t) (j : nat) : list R := nth j (cols m) [].
Definition row (m : t) (i : nat) : list R := map (fun c => nth i c 0) (cols m).

(** The default-constructed, empty matrix. *)
Definition empty : t := Mat 0 [].

End mat.

(** ** [class SoftmaxRegression] *)

(** A member function returning [T&]: the caller reads or assigns the
    designated field of the object. *)
Record ref (S A : Type) : Type := Ref {
  get : S -> A;
  set : A -> S -> S
}.

Arguments Ref {S A} get set.
Arguments get {S A} r s.
Arguments set {S A} r a s.

Module SoftmaxRegression.

(** The private data members (lines 210-220). *)
Record t : Type := Build {
  parameters : mat.t;      (* arma::mat parameters *)
  inputSize : nat;         (* size_t inputSize *)
  numClasses : nat;        (* size_t numClasses *)
  lambda : R;              (* double lambda *)
  fitIntercept : bool      (* bool fitIntercept *)
}.

(** [size_t& NumClasses() { return numClasses; }] *)
Definition NumClasses : ref t nat :=
  Ref numClasses
      (fun v s =>
         Build (parameters s) (inputSize s) v (lambda s) (fitIntercept s)).

(** [double& Lambda() { return lambda; }] *)
Definition Lambda : ref t R :=
  Ref lambda
      (fun v s =>
         Build (parameters s) (inputSize s) (numClasses s) v (fitIntercept s)).

(** [bool FitIntercept() const { return fitIntercept; }]: read only. *)
Definition FitIntercept (s : t) : bool := fitIntercept s.

(** [arma::mat& Parameters() { return parameters; }] *)
Definition Parameters : ref t mat.t :=
  Ref parameters
      (fun v s =>
         Build v (inputSize s) (numClasses s) (lambda s) (fitIntercept s)).

Section SizeT.

(** Number of bits of [size_t] and [arma::uword]. *)
Variable w : Z.

(** [a - b] on [size_t]. *)
Definition size_t_sub (a b : Z) : Z := ((a - b) mod 2 ^ w)%Z.

(** Lines 194-196:
<<
  size_t FeatureSize() const
  { return fitIntercept ? parameters.n_cols - 1 :
                          parameters.n_cols; }
>> *)
Definition FeatureSize (s : t) : Z :=
  if fitIntercept s
  then size_t_sub (Z.of_nat (mat.n_cols (parameters s))) 1
  else Z.of_nat (mat.n_cols (parameters s)).

End SizeT.

(** *** The objective function ([softmax_regression_function.hpp]) *)

(** Inner product of two vectors, the entry of a matrix product. *)
Definition dot (a b : list R) : R :=
  arma.accu (map (fun p => fst p * snd p) (combine a b)).

(** Modelled from the spec: the feature vector [x_i], "augmented with a
    trailing [1] if intercept is fit" (section 4.1); the objective function
    is not among the sources. *)
Definition augment (fitIntercept : bool) (x : list R) : list R :=
  if fitIntercept then x ++ [1] else x.

(** Modelled from the spec: the score vector [z = W x], of length
    [numClasses], row [k] of [W] being the weight vector of class [k]
    (sections 3 and 4.1); the objective function is not among the sources. *)
Definition scores (W : mat.t) (fitIntercept : bool) (x : list R) : list R :=
  map (fun k => dot (mat.row W k) (augment fitIntercept x))
      (seq 0 (mat.n_rows W)).

(** Modelled from the spec: [max(z)] of the stabilised softmax (section
    4.1); the objective function is not among the sources. *)
Definition max_score (z : list R) : R :=
  match z with
  | [] => 0
  | x :: rest => fold_left Rmax rest x
  end.

(** Modelled from the spec: [sum_j exp(z_j - max(z))], the denominator of
    [P(k | x_i, W)] (section 4.1); the objective function is not among the
    sources. *)
Definition normaliser (z : list R) : R :=
  arma.accu (map (fun z_j => exp (z_j - max_score z)) z).

(** Modelled from the spec:
    [P(k | x_i, W) = exp(z_k - max(z)) / sum_j exp(z_j - max(z))] (section
    4.1); the objective function is not among the sources. *)
Definition Probability (W : mat.t) (fitIntercept : bool) (x : list R)
    (k : nat) : R :=
  let z := scores W fitIntercept x in
  exp (nth k z 0 - max_score z) / normaliser z.

(** Modelled from the spec: the objective function "bound to
    [(data, labels, numClasses, lambda, fitIntercept)]" (section 4.2); the
    objective function is not among the sources. *)
Record SoftmaxRegressionFunction : Type := BuildFunction {
  fn_data : mat.t;
  fn_labels : list nat;
  fn_numClasses : nat;
  fn_lambda : R;
  fn_fitIntercept : bool
}.

(** Modelled from the spec: [||W||_F^2], the squared Frobenius norm of the
    regulariser (section 4.1); the objective function is not among the
    sources. *)
Definition frobenius2 (W : mat.t) : R :=
  arma.accu (map (fun c => dot c c) (mat.cols W)).

(** Modelled from the spec:
    [J(W) = -(1/n) * sum_i log(P(y_i | x_i, W)) + (lambda/2) * ||W||_F^2]
    (section 4.1); the objective function is not among the sources. *)
Definition Evaluate (f : SoftmaxRegressionFunction) (W : mat.t) : R :=
  let n := INR (mat.n_cols (fn_data f)) in
  - (1 / n)
    * arma.accu
        (map (fun xy => ln (Probability W (fn_fitIntercept f) (fst xy) (snd xy)))
             (combine (mat.cols (fn_data f)) (fn_labels f)))
  + (fn_lambda f / 2) * frobenius2 W.

(** *** Classification ([softmax_regression_impl.hpp]) *)

(** Modelled from the spec: [argmax], "first index achieving the maximum
    (lowest class index wins)" (section 4.2): the running best is replaced
    only by a strictly greater entry.  The implementation of [Classify] is
    not among the sources. *)
Fixpoint index_max_from (best_i : nat) (best : R) (i : nat) (z : list R)
    : nat :=
  match z with
  | [] => best_i
  | x :: rest =>
      if Rgt_dec x best
      then index_max_from i x (S i) rest
      else index_max_from best_i best (S i) rest
  end.

(** Modelled from the spec: the [argmax] of a whole vector; the scan starts
    with the entry of index 0 as the running best.  The implementation of
    [Classify] is not among the sources. *)
Definition index_max (z : list R) : nat :=
  match z with
  | [] => 0%nat
  | x :: rest => index_max_from 0 x 1 rest
  end.

(** What the specification calls the argmax with the lowest index winning
    ties: [k] is an index of [z] whose entry no entry exceeds and no earlier
    entry reaches. *)
Definition first_argmax (z : list R) (k : nat) : Prop :=
  (k < length z)%nat
  /\ (forall j, (j < length z)%nat -> nth j z 0 <= nth k z 0)
  /\ (forall j, (j < k)%nat -> nth j z 0 < nth k z 0).

(** Modelled from the spec: one column of "the full softmax probability
    matrix ... using the same max-subtraction stabilization as the objective
    function, column-normalized to sum to 1" (section 4.2): the scores are
    shifted by their maximum, exponentiated, and divided by the column sum.
    The implementation of [Classify] is not among the sources. *)
Definition softmax (z : list R) : list R :=
  let shifted := map (fun z_k => z_k - max_score z) z in
  let hypothesis := arma.exp shifted in
  arma.div_scalar hypothesis (arma.accu hypothesis).

Section Classify.

Variable w : Z.

(** Modelled from the spec: "Classify called with point of wrong dimension"
    is a DimensionMismatch (section 7); the length of a point must equal
    [FeatureSize()] (section 4.2).  The implementation of [Classify] is not
    among the sources. *)
Definition check_dimension (s : t) (n : nat) : result unit :=
  if (Z.of_nat n =? FeatureSize w s)%Z then Ok tt else Error DimensionMismatch.

(** Modelled from the spec: Classify (batch, labels only), "for each sample,
    compute score vector [z = W x] (augmenting with 1 if intercept fit),
    label = [argmax_k z_k]" (section 4.2).  Declared at line 109; the
    implementation is not among the sources. *)
Definition Classify_labels (s : t) (dataset : mat.t) : result (list nat) :=
  _ <- check_dimension s (mat.n_rows dataset) ;;
  Ok (map (fun x => index_max (scores (parameters s) (fitIntercept s) x))
          (mat.cols dataset)).

(** Modelled from the spec: Classify (single point), "same computation on
    one feature vector; returns the scalar predicted label" (section 4.2).
    Declared at line 119; the implementation is not among the sources. *)
Definition Classify_point (s : t) (point : list R) : result nat :=
  _ <- check_dimension s (length point) ;;
  Ok (index_max (scores (parameters s) (fitIntercept s) point)).

(** Modelled from the spec: Classify (batch, probabilities only), the
    numClasses x numSamples matrix of softmax probabilities (section 4.2).
    Declared at lines 142-143; the implementation is not among the
    sources. *)
Definition Classify_probabilities (s : t) (dataset : mat.t) : result mat.t :=
  _ <- check_dimension s (mat.n_rows dataset) ;;
  Ok (mat.Mat (mat.n_rows (parameters s))
        (map (fun x => softmax (scores (parameters s) (fitIntercept s) x))
             (mat.cols dataset))).

(** Modelled from the spec: Classify (batch, labels + probabilities):
    the labels of the labels-only overload and "additionally" the
    probability matrix (section 4.2).  Declared at lines 132-134; the
    implementation is not among the sources. *)
Definition Classify_labels_probabilities (s : t) (dataset : mat.t)
    : result (list nat * mat.t) :=
  labels <- Classify_labels s dataset ;;
  probabilities <- Classify_probabilities s dataset ;;
  Ok (labels, probabilities).

End Classify.

(** *** Training ([softmax_regression_impl.hpp]) *)

Section Train.

(** The external optimizer: from the objective function and an initial
    point to the final point and the final objective value. *)
Variable Optimize : SoftmaxRegressionFunction -> mat.t -> mat.t * R.

(** The freshly randomised initial point of the given shape. *)
Variable GetInitialPoint : nat -> nat -> mat.t.

(** Modelled from the spec: the precondition of [Train],
    "[data.columns == labels.length]; every label in [[0, numClasses)]"
    (section 4.2).  The implementation of [Train] is not among the
    sources. *)
Definition valid_training_set (data : mat.t) (labels : list nat)
    (numClasses : nat) : bool :=
  (mat.n_cols data =? length labels)%nat
  && forallb (fun y => (y <? numClasses)%nat) labels.

(** Modelled from the spec: [Train] (section 4.2 and the table of section
    7).  A violated precondition "fails with InvalidInput", "parameters left
    at prior value".  Otherwise the objective function is bound to
    [(data, labels, numClasses, lambda, fitIntercept)], the optimizer starts
    from the current parameters when their shape matches and from a freshly
    randomised matrix when it does not, the result is stored and the final
    objective value returned.  Declared at lines 168-173; the implementation
    is not among the sources.  The outcome comes with the state of the
    object after the call. *)
Definition Train (data : mat.t) (labels : list nat) (numClasses : nat)
    (s : t) : result R * t :=
  if valid_training_set data labels numClasses then
    let f := BuildFunction data labels numClasses (lambda s) (fitIntercept s) in
    let featureDim :=
      (mat.n_rows data + (if fitIntercept s then 1 else 0))%nat in
    let start :=
      if ((mat.n_rows (parameters s) =? numClasses)%nat
          && (mat.n_cols (parameters s) =? featureDim)%nat)%bool
      then parameters s
      else GetInitialPoint numClasses featureDim in
    let (final, out) := Optimize f start in
    (Ok out, set Parameters final s)
  else (Error InvalidInput, s).

End Train.

(** *** Serialization (lines 198-208) *)

(** What an archive holds for one member: a matrix, a [size_t], a [double]
    or a [bool]. *)
Inductive archived : Type :=
| AMat (m : mat.t)
| ASize (n : nat)
| ADouble (x : R)
| ABool (b : bool).

(** [BOOST_SERIALIZATION_NVP(member)]: the member paired with its own
    name. *)
Definition nvp : Type := (string * archived)%type.

(** [template<typename Archive>]: the operator [ar & BOOST_SERIALIZATION_NVP(x)]
    at each member type.  An archive that saves writes [x] and leaves it as
    it is; an archive that loads reads the next entry into [x].  The
    operator returns the archive and the value [x] holds afterwards, or
    nothing when the archive raises. *)
Class Archive (A : Type) : Type := {
  amp_mat : A -> string -> mat.t -> option (A * mat.t);
  amp_size_t : A -> string -> nat -> option (A * nat);
  amp_double : A -> string -> R -> option (A * R);
  amp_bool : A -> string -> bool -> option (A * bool)
}.

(** Lines 201-208:
<<
  template<typename Archive>
  void serialize(Archive& ar, const unsigned int /* version */)
  {
    ar & BOOST_SERIALIZATION_NVP(parameters);
    ar & BOOST_SERIALIZATION_NVP(numClasses);
    ar & BOOST_SERIALIZATION_NVP(lambda);
    ar & BOOST_SERIALIZATION_NVP(fitIntercept);
  }
>>
    [inputSize] is not among the members the archive sees. *)
Definition serialize {A : Type} `{Archive A} (ar : A) (s : t)
    : option (A * t) :=
  match amp_mat ar "parameters" (parameters s) with
  | None => None
  | Some (ar, parameters) =>
  match amp_size_t ar "numClasses" (numClasses s) with
  | None => None
  | Some (ar, numClasses) =>
  match amp_double ar "lambda" (lambda s) with
  | None => None
  | Some (ar, lambda) =>
  match amp_bool ar "fitIntercept" (fitIntercept s) with
  | None => None
  | Some (ar, fitIntercept) =>
      Some (ar, Build parameters (inputSize s) numClasses lambda fitIntercept)
  end end end end.

(** A saving archive: the entries written so far, in order. *)
Record oarchive : Type := OArchive { written : list nvp }.

(** Saving [x] under [name] appends the pair and leaves [x] as it is. *)
Definition save_entry {X : Type} (tag : X -> archived) (ar : oarchive)
    (name : string) (x : X) : option (oarchive * X) :=
  Some (OArchive (written ar ++ [(name, tag x)]), x).

#[global] Instance oarchive_Archive : Archive oarchive := {
  amp_mat := save_entry AMat;
  amp_size_t := save_entry ASize;
  amp_double := save_entry ADouble;
  amp_bool := save_entry ABool
}.

(** A loading archive: the entries still to be read, in order. *)
Record iarchive : Type := IArchive { pending : list nvp }.

(** Loading into a member named [name] takes the next entry, which has to
    bear that name and hold a value of the member's type ([untag]); the
    archive raises otherwise, and when no entry is left. *)
Definition load_entry {X : Type} (untag : archived -> option X)
    (ar : iarchive) (name : string) (x : X) : option (iarchive * X) :=
  match pending ar with
  | [] => None
  | (name', v) :: rest =>
      if String.eqb name' name
      then match untag v with
           | Some x' => Some (IArchive rest, x')
           | None => None
           end
      else None
  end.

#[global] Instance iarchive_Archive : Archive iarchive := {
  amp_mat := load_entry (fun v => match v with AMat m => Some m | _ => None end);
  amp_size_t :=
    load_entry (fun v => match v with ASize n => Some n | _ => None end);
  amp_double :=
    load_entry (fun v => match v with ADouble x => Some x | _ => None end);
  amp_bool :=
    load_entry (fun v => match v with ABool b => Some b | _ => None end)
}.

End SoftmaxRegression.

(** ** A worked model: two classes, two features, no intercept *)

(** The identity weights: class [k] scores feature [k]. *)
Definition identity_model : SoftmaxRegression.t :=
  SoftmaxRegression.Build (mat.Mat 2 [[1; 0]; [0; 1]]) 2 2 0 false.

(** The samples [(1,0)], [(0,1)] and [(1,1)]. *)
Definition three_samples : mat.t := mat.Mat 2 [[1; 0]; [0; 1]; [1; 1]].

(** * Properties of [ExponentialLoss::Calculate] *)

Section ExponentialLossFacts.

Import ExponentialLoss.

(** The scan of [arma::max] picks either of its two arguments, and bounds
    both. *)
Lemma max_step_cases (a x : R) :
  (arma.max_step a x = a \/ arma.max_step a x = x)
  /\ a <= arma.max_step a x /\ x <= arma.max_step a x.
Proof.
  unfold arma.max_step.
  destruct (Rgt_dec x a) as [Hgt | Hngt].
  - repeat split; [now right | lra | lra].
  - repeat split; [now left | lra | lra].
Qed.

Lemma fold_max_step (xs : list R) :
  forall a : R,
    (fold_left arma.max_step xs a = a \/ In (fold_left arma.max_step xs a) xs)
    /\ a <= fold_left arma.max_step xs a
    /\ Forall (fun x => x <= fold_left arma.max_step xs a) xs.
Proof.
  induction xs as [| x xs IH]; intros a; simpl.
  - repeat split; [now left | lra | constructor].
  - destruct (IH (arma.max_step a x)) as (Hin & Hlo & Hall).
    destruct (max_step_cases a x) as (Hsel & Ha & Hx).
    repeat split.
    + destruct Hin as [Heq | Hin].
      * rewrite Heq. destruct Hsel as [-> | ->]; [now left | now right; left].
      * right; now right.
    + lra.
    + constructor; [lra | exact Hall].
Qed.

(** [arma::max] returns an entry of the vector that bounds all entries. *)
Lemma arma_max_sound (e : arma.vec) (m : R) :
  arma.max e = Ok m -> In m e /\ Forall (fun x => x <= m) e.
Proof.
  destruct e as [| x xs]; simpl; [discriminate |].
  intros Heq; injection Heq as <-.
  destruct (fold_max_step xs x) as (Hin & Hlo & Hall).
  split.
  - destruct Hin as [-> | Hin]; [now left | now right].
  - constructor; assumption.
Qed.

(** Conversely, the maximum entry of a vector is what [arma::max]
    returns. *)
Lemma arma_max_complete (e : arma.vec) (m : R) :
  In m e -> Forall (fun x => x <= m) e -> arma.max e = Ok m.
Proof.
  intros Hin Hall.
  destruct e as [| x xs]; [contradiction |].
  destruct (arma_max_sound (x :: xs) (fold_left arma.max_step xs x) eq_refl)
    as (Hin' & Hall').
  simpl arma.max. f_equal.
  rewrite Forall_forall in Hall, Hall'.
  apply Rle_antisym; [apply Hall, Hin' | apply Hall', Hin].
Qed.

(** On a vector with at least one entry [arma::max] returns. *)
Lemma arma_max_nonempty (e : arma.vec) :
  e <> [] -> exists m, arma.max e = Ok m.
Proof.
  destruct e as [| x xs]; [congruence |].
  intros _; eexists; reflexivity.
Qed.

(** The vector expression of [Calculate], entry by entry. *)
Lemma loss_entries (e : arma.vec) (d : R) :
  arma.scalar_minus 1 (arma.exp (arma.div_scalar (arma.neg (arma.abs e)) d))
  = map (fun e_i => 1 - exp (- Rabs e_i / d)) e.
Proof.
  unfold arma.scalar_minus, arma.exp, arma.div_scalar, arma.neg, arma.abs.
  rewrite !map_map. reflexivity.
Qed.

(** [Calculate] in terms of the entry [arma::max] selects. *)
Lemma Calculate_of_max (e : arma.vec) (m : R) :
  arma.max e = Ok m ->
  max_error e = Ok (if Req_dec_T m 0 then 1 else m)
  /\ Calculate e
     = Ok (map (fun e_i =>
                  1 - exp (- Rabs e_i / (if Req_dec_T m 0 then 1 else m))) e).
Proof.
  intros Hmax.
  unfold Calculate, max_error. rewrite Hmax. simpl.
  now rewrite loss_entries.
Qed.

(** The denominator [Calculate] divides by is never zero. *)
Lemma denominator_nonzero (m : R) : (if Req_dec_T m 0 then 1 else m) <> 0.
Proof. destruct (Req_dec_T m 0); lra. Qed.

(** C1.  For every error vector [e] with maximum entry [m] (the signed
    maximum, not the maximum of the absolute values), [Calculate e] returns
    the vector whose [i]-th entry is [1 - exp(-|e_i| / d)], where [d] is [m],
    replaced by [1] when [m] equals [0]. *)
Theorem Calculate_formula (e : arma.vec) (m : R) :
  In m e -> Forall (fun x => x <= m) e ->
  Calculate e
  = Ok (map (fun e_i => 1 - exp (- Rabs e_i / (if Req_dec_T m 0 then 1 else m)))
            e).
Proof.
  intros Hin Hall.
  apply Calculate_of_max, arma_max_complete; assumption.
Qed.

Lemma Calculate_formula_witness :
  In 4 [1; -2; 4] /\ Forall (fun x => x <= 4) [1; -2; 4]
  /\ Calculate [1; -2; 4]
     = Ok (map (fun e_i =>
                  1 - exp (- Rabs e_i / (if Req_dec_T 4 0 then 1 else 4)))
               [1; -2; 4]).
Proof.
  assert (Hin : In 4 [1; -2; 4]) by (simpl; auto).
  assert (Hall : Forall (fun x => x <= 4) [1; -2; 4])
    by (repeat constructor; lra).
  split; [exact Hin | split; [exact Hall |]].
  exact (Calculate_formula [1; -2; 4] 4 Hin Hall).
Defined.

(** C6, as stated, fails on the vector without elements: [arma::max] has
    no entry to return and raises, so [Calculate] is not total. *)
Lemma Calculate_not_total :
  Calculate [] = Error LogicError
  /\ ~ (forall e : arma.vec, exists loss, Calculate e = Ok loss).
Proof.
  split; [reflexivity |].
  intros H. destruct (H []) as [loss Hloss]. discriminate Hloss.
Qed.

(** C6 (amended).  [Calculate] is total on every vector with at least one
    entry: the denominator is the maximum entry [m], substituted with [1]
    when [m] is [0]; it is never zero, so the division is well defined, and
    the call returns a loss vector as long as its input. *)
Theorem Calculate_total_nonempty (e : arma.vec) :
  e <> [] ->
  exists m d loss,
    arma.max e = Ok m
    /\ max_error e = Ok d
    /\ (m = 0 -> d = 1) /\ (m <> 0 -> d = m)
    /\ d <> 0
    /\ Calculate e = Ok loss
    /\ length loss = length e.
Proof.
  intros Hne.
  destruct (arma_max_nonempty e Hne) as [m Hm].
  destruct (Calculate_of_max e m Hm) as (Hd & Hcalc).
  exists m, (if Req_dec_T m 0 then 1 else m),
    (map (fun e_i => 1 - exp (- Rabs e_i / (if Req_dec_T m 0 then 1 else m)))
         e).
  split; [exact Hm | split; [exact Hd |]].
  split; [| split; [| split; [| split]]].
  - intros ->. destruct (Req_dec_T 0 0); [reflexivity | lra].
  - intros Hm0. destruct (Req_dec_T m 0); [contradiction | reflexivity].
  - apply denominator_nonzero.
  - exact Hcalc.
  - apply length_map.
Qed.

Lemma Calculate_total_nonempty_witness :
  [0; -3] <> []
  /\ exists m d loss,
       arma.max [0; -3] = Ok m
       /\ max_error [0; -3] = Ok d
       /\ (m = 0 -> d = 1) /\ (m <> 0 -> d = m)
       /\ d <> 0
       /\ Calculate [0; -3] = Ok loss
       /\ length loss = length [0; -3].
Proof.
  assert (Hne : [0; -3] <> []) by discriminate.
  split; [exact Hne | exact (Calculate_total_nonempty [0; -3] Hne)].
Defined.

(** C7.  [Calculate] applied to the all-zero vector [[0,0,0]] returns
    [[0,0,0]]. *)
Theorem Calculate_zeros : Calculate [0; 0; 0] = Ok [0; 0; 0].
Proof.
  assert (Hmax : arma.max [0; 0; 0] = Ok 0).
  { apply arma_max_complete; [now left | repeat constructor; lra]. }
  destruct (Calculate_of_max _ _ Hmax) as (_ & ->).
  destruct (Req_dec_T 0 0) as [_ | Hne]; [| lra].
  simpl. rewrite Rabs_R0.
  replace (- 0 / 1) with 0 by field.
  rewrite exp_0.
  replace (1 - 1) with 0 by ring.
  reflexivity.
Qed.

(** With a negative denominator [m], [-|x| / m] is the positive quotient
    [|x| / |m|]. *)
Lemma negative_denominator (x m : R) :
  m < 0 -> - Rabs x / m = Rabs x / Rabs m.
Proof.
  intros Hm. rewrite (Rabs_left m Hm). field. lra.
Qed.

(** C9.  For every error vector whose maximum entry [m] is strictly
    negative, [Calculate] divides by that negative maximum; every returned
    entry equals [1 - exp(|e_i| / |m|)] and is strictly negative, so the
    returned vector does not lie in [[0, 1)]. *)
Theorem Calculate_negative_max (e : arma.vec) (m : R) :
  In m e -> Forall (fun x => x <= m) e -> m < 0 ->
  max_error e = Ok m
  /\ exists loss,
       Calculate e = Ok loss
       /\ loss = map (fun e_i => 1 - exp (Rabs e_i / Rabs m)) e
       /\ Forall (fun l => l < 0) loss
       /\ ~ Forall (fun l => 0 <= l < 1) loss.
Proof.
  intros Hin Hall Hneg.
  destruct (Calculate_of_max e m (arma_max_complete e m Hin Hall))
    as (Hd & Hcalc).
  destruct (Req_dec_T m 0) as [Hz | _]; [lra |].
  split; [exact Hd |].
  assert (Hloss : Forall (fun l => l < 0)
                    (map (fun e_i => 1 - exp (Rabs e_i / Rabs m)) e)).
  { apply Forall_map. revert Hall. apply Forall_impl.
    intros x Hx.
    assert (Hpos : 0 < Rabs x / Rabs m).
    { rewrite (Rabs_left m Hneg), (Rabs_left x) by lra.
      apply Rdiv_lt_0_compat; lra. }
    assert (Hexp := exp_ineq1 (Rabs x / Rabs m)).
    assert (Rabs x / Rabs m <> 0) by lra.
    lra. }
  eexists. split; [exact Hcalc |]. split; [| split].
  - apply map_ext. intros x. now rewrite negative_denominator.
  - erewrite map_ext; [exact Hloss |].
    intros x. now rewrite negative_denominator.
  - erewrite map_ext
      by (intros x; rewrite negative_denominator by exact Hneg; reflexivity).
    destruct e as [| x xs]; [contradiction |].
    simpl. intros Hrange.
    inversion Hrange as [| l ls Hl _]; subst.
    inversion Hloss as [| l' ls' Hl' _]; subst.
    lra.
Qed.

Lemma Calculate_negative_max_witness :
  In (-1) [-2; -1; -4] /\ Forall (fun x => x <= -1) [-2; -1; -4] /\ -1 < 0
  /\ max_error [-2; -1; -4] = Ok (-1)
  /\ exists loss,
       Calculate [-2; -1; -4] = Ok loss
       /\ loss = map (fun e_i => 1 - exp (Rabs e_i / Rabs (-1))) [-2; -1; -4]
       /\ Forall (fun l => l < 0) loss
       /\ ~ Forall (fun l => 0 <= l < 1) loss.
Proof.
  assert (Hin : In (-1) [-2; -1; -4]) by (simpl; auto).
  assert (Hall : Forall (fun x => x <= -1) [-2; -1; -4])
    by (repeat constructor; lra).
  assert (Hneg : -1 < 0) by lra.
  split; [exact Hin | split; [exact Hall | split; [exact Hneg |]]].
  exact (Calculate_negative_max [-2; -1; -4] (-1) Hin Hall Hneg).
Defined.

End ExponentialLossFacts.

(** * Properties of the [SoftmaxRegression] accessors *)

Section AccessorFacts.

Import SoftmaxRegression.

Open Scope Z_scope.

(** On [w] bits, [0 - 1] is the largest value. *)
Lemma size_t_sub_0_1 (w : Z) : 0 <= w -> size_t_sub w 0 1 = 2 ^ w - 1.
Proof.
  intros Hw. unfold size_t_sub.
  assert (Hpow : 0 < 2 ^ w) by (apply Z.pow_pos_nonneg; lia).
  symmetry. apply (Z.mod_unique_pos _ _ (-1)); lia.
Qed.

(** Without a borrow the subtraction on [size_t] is the subtraction on
    integers. *)
Lemma size_t_sub_exact (w a b : Z) :
  0 <= b <= a -> a < 2 ^ w -> size_t_sub w a b = a - b.
Proof.
  intros Hb Ha. unfold size_t_sub. apply Z.mod_small. lia.
Qed.

(** C5.  [FeatureSize()] returns the number of columns of the parameter
    matrix minus 1 (a subtraction on [size_t]) when [fitIntercept] is true,
    and exactly the number of columns when it is false; when the matrix has
    a column the subtraction is exact. *)
Theorem FeatureSize_columns (w : Z) (s : t) :
  let n := Z.of_nat (mat.n_cols (parameters s)) in
  FeatureSize w s = (if fitIntercept s then (n - 1) mod 2 ^ w else n)
  /\ (0 < n < 2 ^ w ->
      FeatureSize w s = if fitIntercept s then n - 1 else n).
Proof.
  intros n. unfold FeatureSize. fold n.
  split.
  - destruct (fitIntercept s); reflexivity.
  - intros Hn. destruct (fitIntercept s); [| reflexivity].
    apply size_t_sub_exact; lia.
Qed.

Lemma FeatureSize_columns_witness :
  let s := Build (mat.Mat 2 [[1; 0]; [0; 1]; [0; 0]]%R) 2 2 0%R true in
  let n := Z.of_nat (mat.n_cols (parameters s)) in
  0 < n < 2 ^ 64
  /\ FeatureSize 64 s = 2
  /\ FeatureSize 64 s = if fitIntercept s then n - 1 else n.
Proof.
  intros s n.
  assert (Hn : 0 < n < 2 ^ 64) by (subst n s; simpl; lia).
  split; [exact Hn |].
  split; [| exact (proj2 (FeatureSize_columns 64 s) Hn)].
  rewrite (proj2 (FeatureSize_columns 64 s) Hn). reflexivity.
Defined.

(** C8.  Assigning through [Lambda()] changes only [lambda], assigning
    through [NumClasses()] changes only [numClasses]: the parameter matrix,
    the [fitIntercept] flag and every other field keep their values. *)
Theorem accessor_assignment_frame (s : t) (new_lambda : R)
    (new_numClasses : nat) :
  (get Lambda (set Lambda new_lambda s) = new_lambda
   /\ parameters (set Lambda new_lambda s) = parameters s
   /\ FitIntercept (set Lambda new_lambda s) = FitIntercept s
   /\ get NumClasses (set Lambda new_lambda s) = get NumClasses s
   /\ inputSize (set Lambda new_lambda s) = inputSize s)
  /\ (get NumClasses (set NumClasses new_numClasses s) = new_numClasses
      /\ parameters (set NumClasses new_numClasses s) = parameters s
      /\ FitIntercept (set NumClasses new_numClasses s) = FitIntercept s
      /\ get Lambda (set NumClasses new_numClasses s) = get Lambda s
      /\ inputSize (set NumClasses new_numClasses s) = inputSize s).
Proof.
  split; repeat split; reflexivity.
Qed.

(** C10.  With [fitIntercept] true and a parameter matrix without columns,
    [FeatureSize()] computes [0 - 1] on [size_t] and returns [2^w - 1]. *)
Theorem FeatureSize_wraps (w : Z) (s : t) :
  0 <= w ->
  fitIntercept s = true ->
  mat.n_cols (parameters s) = 0%nat ->
  FeatureSize w s = 2 ^ w - 1.
Proof.
  intros Hw Hfit Hcols.
  unfold FeatureSize. rewrite Hfit, Hcols.
  now apply size_t_sub_0_1.
Qed.

Lemma FeatureSize_wraps_witness :
  let s := Build mat.empty 0 0 0%R true in
  0 <= 64
  /\ fitIntercept s = true
  /\ mat.n_cols (parameters s) = 0%nat
  /\ FeatureSize 64 s = 18446744073709551615.
Proof.
  intros s.
  assert (Hw : 0 <= 64) by lia.
  split; [exact Hw |].
  split; [reflexivity |]. split; [reflexivity |].
  exact (FeatureSize_wraps 64 s Hw eq_refl eq_refl).
Defined.

End AccessorFacts.

(** * Properties of [Train] *)

Section TrainFacts.

Import SoftmaxRegression.

Variable Optimize : SoftmaxRegressionFunction -> mat.t -> mat.t * R.
Variable GetInitialPoint : nat -> nat -> mat.t.

(** The check of the precondition rejects exactly the training sets with a
    label count different from the column count or a label out of range. *)
Lemma valid_training_set_false (data : mat.t) (labels : list nat)
    (numClasses : nat) :
  valid_training_set data labels numClasses = false
  <-> (mat.n_cols data <> length labels
       \/ Exists (fun y => (numClasses <= y)%nat) labels).
Proof.
  unfold valid_training_set.
  rewrite andb_false_iff, Nat.eqb_neq.
  split; (intros [Hlen | Hlab]; [now left | right]).
  - induction labels as [| y ys IH]; simpl in Hlab; [discriminate |].
    apply andb_false_iff in Hlab. destruct Hlab as [Hy | Hys].
    + left. apply Nat.ltb_ge. exact Hy.
    + right. exact (IH Hys).
  - induction Hlab as [y ys Hy | y ys _ IH]; simpl; apply andb_false_iff.
    + left. apply Nat.ltb_ge. exact Hy.
    + right. exact IH.
Qed.

(** On a valid training set [Train] returns the optimizer's objective value
    and stores the optimizer's final point. *)
Lemma Train_valid (data : mat.t) (labels : list nat) (numClasses : nat)
    (s : t) :
  valid_training_set data labels numClasses = true ->
  exists start,
    Train Optimize GetInitialPoint data labels numClasses s
    = (Ok (snd (Optimize (BuildFunction data labels numClasses (lambda s)
                            (fitIntercept s)) start)),
       set Parameters
           (fst (Optimize (BuildFunction data labels numClasses (lambda s)
                             (fitIntercept s)) start)) s).
Proof.
  intros Hvalid. unfold Train. rewrite Hvalid.
  eexists.
  match goal with
  | |- (let (_, _) := ?o in _) = _ => destruct o as [final out] eqn:Hopt
  end.
  rewrite Hopt. reflexivity.
Qed.

(** C2.  When [data] has a number of columns different from the number of
    labels, or some label is at least [numClasses], [Train] fails with
    InvalidInput and leaves the object, and so its parameter matrix, as it
    was before the call. *)
Theorem Train_invalid_input (data : mat.t) (labels : list nat)
    (numClasses : nat) (s : t) :
  mat.n_cols data <> length labels
  \/ Exists (fun y => (numClasses <= y)%nat) labels ->
  Train Optimize GetInitialPoint data labels numClasses s
  = (Error InvalidInput, s)
  /\ parameters
       (snd (Train Optimize GetInitialPoint data labels numClasses s))
     = parameters s.
Proof.
  intros Hbad.
  apply valid_training_set_false in Hbad.
  unfold Train. rewrite Hbad. split; reflexivity.
Qed.

End TrainFacts.

Lemma Train_invalid_input_witness :
  let Optimize := fun f W => (W, SoftmaxRegression.Evaluate f W) in
  let GetInitialPoint := fun r c => mat.Mat r (repeat (repeat 0 r) c) in
  let data := mat.Mat 2 [[1; 0]; [0; 1]; [1; 1]] in
  let s := SoftmaxRegression.Build mat.empty 2 2 0 false in
  (mat.n_cols data <> length [0; 1; 2]%nat
   \/ Exists (fun y => (2 <= y)%nat) [0; 1; 2]%nat)
  /\ SoftmaxRegression.Train Optimize GetInitialPoint data [0; 1; 2]%nat 2 s
     = (Error InvalidInput, s).
Proof.
  intros Optimize GetInitialPoint data s.
  assert (Hbad : mat.n_cols data <> length [0; 1; 2]%nat
                 \/ Exists (fun y => (2 <= y)%nat) [0; 1; 2]%nat).
  { right. apply Exists_cons_tl, Exists_cons_tl, Exists_cons_hd. lia. }
  split; [exact Hbad |].
  exact (proj1 (Train_invalid_input Optimize GetInitialPoint data
                  [0; 1; 2]%nat 2%nat s Hbad)).
Defined.

(** * Properties of [Classify] *)

Section ClassifyFacts.

Import SoftmaxRegression.

(** ** Sums *)

Lemma accu_div_scalar (l : list R) (k : R) :
  arma.accu (arma.div_scalar l k) = arma.accu l / k.
Proof.
  unfold arma.div_scalar, Rdiv.
  induction l as [| x l IH]; simpl.
  - ring.
  - rewrite IH. ring.
Qed.

Lemma accu_nonneg (l : list R) :
  Forall (fun x => 0 < x) l -> 0 <= arma.accu l.
Proof.
  induction 1 as [| x l Hx _ IH]; simpl; lra.
Qed.

Lemma accu_pos (l : list R) :
  l <> [] -> Forall (fun x => 0 < x) l -> 0 < arma.accu l.
Proof.
  destruct l as [| x l]; [congruence |].
  intros _ Hall. inversion Hall as [| y ys Hx Hl]; subst.
  apply accu_nonneg in Hl. simpl. lra.
Qed.

(** ** The softmax of a score vector *)

Lemma normaliser_pos (z : list R) : z <> [] -> 0 < normaliser z.
Proof.
  intros Hne. apply accu_pos.
  - destruct z; [congruence | discriminate].
  - apply Forall_map, Forall_forall. intros x _. apply exp_pos.
Qed.

(** [softmax] maps every score through one function of that score. *)
Lemma softmax_entries (z : list R) :
  softmax z = map (fun z_k => exp (z_k - max_score z) / normaliser z) z.
Proof.
  unfold softmax, normaliser, arma.exp, arma.div_scalar.
  rewrite !map_map. reflexivity.
Qed.

Lemma length_softmax (z : list R) : length (softmax z) = length z.
Proof. rewrite softmax_entries. apply length_map. Qed.

Lemma length_scores (W : mat.t) (b : bool) (x : list R) :
  length (scores W b x) = mat.n_rows W.
Proof. unfold scores. now rewrite length_map, length_seq. Qed.

(** That function is strictly increasing. *)
Lemma softmax_entry_increasing (z : list R) (a b : R) :
  z <> [] -> a < b ->
  exp (a - max_score z) / normaliser z < exp (b - max_score z) / normaliser z.
Proof.
  intros Hne Hab. unfold Rdiv.
  apply Rmult_lt_compat_r.
  - apply Rinv_0_lt_compat, normaliser_pos, Hne.
  - apply exp_increasing. lra.
Qed.

(** The columns of the probability matrix sum to one. *)
Lemma accu_softmax (z : list R) : z <> [] -> arma.accu (softmax z) = 1.
Proof.
  intros Hne. unfold softmax.
  rewrite accu_div_scalar.
  assert (Hpos := normaliser_pos z Hne).
  unfold normaliser in Hpos. unfold arma.exp. rewrite map_map.
  field. lra.
Qed.

(** Reading a list back through its indices. *)
Lemma map_nth_seq (A B : Type) (g : A -> B) (d : A) (l : list A) :
  map (fun k => g (nth k l d)) (seq 0 (length l)) = map g l.
Proof.
  induction l as [| a l IH]; simpl; [reflexivity |].
  f_equal. rewrite <- seq_shift, map_map. exact IH.
Qed.

(** The entries of the softmax are the probabilities of the objective
    function. *)
Lemma softmax_Probability (W : mat.t) (b : bool) (x : list R) :
  softmax (scores W b x)
  = map (Probability W b x) (seq 0 (mat.n_rows W)).
Proof.
  rewrite softmax_entries.
  rewrite <- (map_nth_seq _ _
                (fun z_k => exp (z_k - max_score (scores W b x))
                            / normaliser (scores W b x)) 0 (scores W b x)).
  rewrite length_scores. reflexivity.
Qed.

(** ** The index of the maximum *)

(** A strictly increasing map does not move the index of the maximum. *)
Lemma index_max_from_increasing (f : R -> R) :
  (forall a b, a < b -> f a < f b) ->
  forall (z : list R) (best_i : nat) (best : R) (i : nat),
    index_max_from best_i (f best) i (map f z)
    = index_max_from best_i best i z.
Proof.
  intros Hf.
  induction z as [| x z IH]; intros best_i best i; simpl; [reflexivity |].
  destruct (Rgt_dec x best) as [Hgt | Hngt];
    destruct (Rgt_dec (f x) (f best)) as [Hfgt | Hfngt].
  - apply IH.
  - exfalso. apply Hfngt, Hf, Hgt.
  - exfalso. apply Hngt.
    destruct (Rtotal_order x best) as [Hlt | [Heq | Hgt]].
    + apply Hf in Hlt. lra.
    + subst. lra.
    + exact Hgt.
  - apply IH.
Qed.

Lemma index_max_softmax (z : list R) : index_max (softmax z) = index_max z.
Proof.
  destruct z as [| x rest]; [reflexivity |].
  rewrite softmax_entries.
  set (f := fun z_k =>
              exp (z_k - max_score (x :: rest)) / normaliser (x :: rest)).
  cbn [map]. unfold index_max.
  apply (index_max_from_increasing f).
  intros a b. apply softmax_entry_increasing. discriminate.
Qed.

(** The scan keeps, over the prefix it has read, the first index of the
    greatest entry. *)
Lemma index_max_from_first (rest : list R) :
  forall (pre : list R) (best_i : nat) (best : R),
    (best_i < length pre)%nat ->
    nth best_i pre 0 = best ->
    (forall j, (j < length pre)%nat -> nth j pre 0 <= best) ->
    (forall j, (j < best_i)%nat -> nth j pre 0 < best) ->
    first_argmax (pre ++ rest)
                 (index_max_from best_i best (length pre) rest).
Proof.
  induction rest as [| x rest IH]; intros pre best_i best Hi Hbest Hle Hlt.
  - simpl. rewrite app_nil_r. unfold first_argmax. rewrite Hbest.
    repeat split; assumption.
  - replace (pre ++ x :: rest) with ((pre ++ [x]) ++ rest)
      by (rewrite <- app_assoc; reflexivity).
    assert (Hlen : length (pre ++ [x]) = S (length pre))
      by (rewrite length_app; simpl; lia).
    assert (Hlast : nth (length pre) (pre ++ [x]) 0 = x)
      by (rewrite app_nth2, Nat.sub_diag by lia; reflexivity).
    simpl index_max_from. rewrite <- Hlen.
    destruct (Rgt_dec x best) as [Hgt | Hngt]; apply IH.
    + lia.
    + exact Hlast.
    + intros j Hj. destruct (Nat.eq_dec j (length pre)) as [-> | Hne].
      * rewrite Hlast. lra.
      * rewrite app_nth1 by lia.
        assert (H : nth j pre 0 <= best) by (apply Hle; lia). lra.
    + intros j Hj. rewrite app_nth1 by lia.
      specialize (Hle j Hj). lra.
    + lia.
    + rewrite app_nth1 by lia. exact Hbest.
    + intros j Hj. destruct (Nat.eq_dec j (length pre)) as [-> | Hne].
      * rewrite Hlast. lra.
      * rewrite app_nth1 by lia. apply Hle. lia.
    + intros j Hj. rewrite app_nth1 by lia. apply Hlt, Hj.
Qed.

(** [index_max] is the argmax with the lowest index winning ties. *)
Lemma index_max_first_argmax (z : list R) :
  z <> [] -> first_argmax z (index_max z).
Proof.
  destruct z as [| x rest]; [congruence |]; intros _.
  apply (index_max_from_first rest [x] 0%nat x).
  - simpl; lia.
  - reflexivity.
  - intros j Hj. simpl in Hj. replace j with 0%nat by lia. simpl. lra.
  - intros j Hj. lia.
Qed.

(** ** The overloads of [Classify] *)

Variable w : Z.

(** The overloads accept the same datasets. *)
Lemma Classify_dimension_ok (s : t) (dataset : mat.t) :
  Z.of_nat (mat.n_rows dataset) = FeatureSize w s ->
  check_dimension w s (mat.n_rows dataset) = Ok tt.
Proof.
  intros Hdim. unfold check_dimension.
  now rewrite (proj2 (Z.eqb_eq _ _) Hdim).
Qed.

(** The labels-only overload in terms of the probabilities-only one. *)
Lemma Classify_labels_of_probabilities (s : t) (dataset : mat.t) :
  Classify_labels w s dataset
  = (probabilities <- Classify_probabilities w s dataset ;;
     Ok (map index_max (mat.cols probabilities))).
Proof.
  unfold Classify_labels, Classify_probabilities.
  destruct (check_dimension w s (mat.n_rows dataset)) as [[] | e]; simpl;
    [| reflexivity].
  rewrite map_map. f_equal. apply map_ext.
  intros x. symmetry. apply index_max_softmax.
Qed.

(** The probability matrix has one softmax column per sample. *)
Lemma Classify_probabilities_col (s : t) (dataset probabilities : mat.t)
    (i : nat) :
  Classify_probabilities w s dataset = Ok probabilities ->
  (i < mat.n_cols dataset)%nat ->
  mat.n_cols probabilities = mat.n_cols dataset
  /\ mat.col probabilities i
     = softmax (scores (parameters s) (fitIntercept s) (mat.col dataset i)).
Proof.
  unfold Classify_probabilities.
  destruct (check_dimension w s (mat.n_rows dataset)) as [[] | e]; simpl;
    [| discriminate].
  intros Heq Hi. injection Heq as <-.
  unfold mat.n_cols, mat.col. simpl. rewrite length_map. split; [reflexivity |].
  rewrite (nth_indep _ [] (softmax (scores (parameters s) (fitIntercept s) [])))
    by (rewrite length_map; exact Hi).
  apply (map_nth (fun x => softmax (scores (parameters s) (fitIntercept s) x))).
Qed.

(** C3.  The labels of the labels-only [Classify] are, sample by sample,
    the index of the maximum of the probability column that the
    probability-producing [Classify] returns on the same input and
    parameters, and so are the labels of the overload that returns both;
    when the model has a class, that index is the argmax of the column with
    the lowest index winning ties. *)
Theorem Classify_labels_argmax_probabilities (s : t) (dataset : mat.t) :
  Classify_labels w s dataset
  = (probabilities <- Classify_probabilities w s dataset ;;
     Ok (map index_max (mat.cols probabilities)))
  /\ Classify_labels_probabilities w s dataset
     = (probabilities <- Classify_probabilities w s dataset ;;
        Ok (map index_max (mat.cols probabilities), probabilities))
  /\ forall labels probabilities i,
       Classify_labels w s dataset = Ok labels ->
       Classify_probabilities w s dataset = Ok probabilities ->
       (0 < mat.n_rows (parameters s))%nat ->
       (i < mat.n_cols dataset)%nat ->
       first_argmax (mat.col probabilities i) (nth i labels 0%nat).
Proof.
  split; [apply Classify_labels_of_probabilities |].
  split.
  { unfold Classify_labels_probabilities.
    rewrite Classify_labels_of_probabilities.
    destruct (Classify_probabilities w s dataset); reflexivity. }
  intros labels probabilities i Hlabels Hprobs Hrows Hi.
  rewrite Classify_labels_of_probabilities, Hprobs in Hlabels.
  simpl in Hlabels. injection Hlabels as <-.
  change 0%nat with (index_max []) at 1.
  rewrite map_nth. fold (mat.col probabilities i).
  apply index_max_first_argmax.
  destruct (Classify_probabilities_col s dataset probabilities i Hprobs Hi)
    as (_ & ->).
  intros Hnil. apply (f_equal (@length R)) in Hnil.
  rewrite length_softmax, length_scores in Hnil. simpl in Hnil. lia.
Qed.

(** C4.  For a model with at least one class and a dataset of the model's
    dimension, both probability-producing overloads of [Classify] return the
    same probability matrix, with one column per sample; every column sums
    to 1 and holds the probabilities [P(k | x_i, W)] of the objective
    function, max-subtraction included. *)
Theorem Classify_probabilities_normalized (s : t) (dataset : mat.t) :
  (0 < mat.n_rows (parameters s))%nat ->
  Z.of_nat (mat.n_rows dataset) = FeatureSize w s ->
  exists labels probabilities,
    Classify_probabilities w s dataset = Ok probabilities
    /\ Classify_labels_probabilities w s dataset = Ok (labels, probabilities)
    /\ mat.n_cols probabilities = mat.n_cols dataset
    /\ forall i, (i < mat.n_cols dataset)%nat ->
         arma.accu (mat.col probabilities i) = 1
         /\ mat.col probabilities i
            = map (Probability (parameters s) (fitIntercept s)
                     (mat.col dataset i))
                  (seq 0 (mat.n_rows (parameters s))).
Proof.
  intros Hrows Hdim.
  assert (Hcheck := Classify_dimension_ok s dataset Hdim).
  assert (Hprobs : exists probabilities,
             Classify_probabilities w s dataset = Ok probabilities).
  { unfold Classify_probabilities. rewrite Hcheck. simpl. eexists; reflexivity. }
  destruct Hprobs as [probabilities Hprobs].
  exists (map index_max (mat.cols probabilities)), probabilities.
  split; [exact Hprobs |]. split; [| split].
  - unfold Classify_labels_probabilities.
    rewrite Classify_labels_of_probabilities, Hprobs. reflexivity.
  - unfold Classify_probabilities in Hprobs. rewrite Hcheck in Hprobs.
    simpl in Hprobs. injection Hprobs as <-.
    unfold mat.n_cols. simpl. apply length_map.
  - intros i Hi.
    destruct (Classify_probabilities_col s dataset probabilities i Hprobs Hi)
      as (_ & ->).
    split.
    + apply accu_softmax. intros Hnil.
      apply (f_equal (@length R)) in Hnil.
      rewrite length_scores in Hnil. simpl in Hnil. lia.
    + apply softmax_Probability.
Qed.

End ClassifyFacts.

(** * The worked model *)

(** The third sample scores both classes alike: the lower class wins. *)
Example Classify_three_samples :
  SoftmaxRegression.Classify_labels 64 identity_model three_samples
  = Ok [0; 1; 0]%nat.
Proof.
  unfold SoftmaxRegression.Classify_labels. simpl.
  unfold SoftmaxRegression.index_max, SoftmaxRegression.scores,
    SoftmaxRegression.dot. simpl.
  repeat match goal with
         | |- context [Rgt_dec ?a ?b] => destruct (Rgt_dec a b); try lra
         end.
  reflexivity.
Qed.

Lemma Classify_labels_argmax_probabilities_witness :
  exists labels probabilities,
    SoftmaxRegression.Classify_labels 64 identity_model three_samples
    = Ok labels
    /\ SoftmaxRegression.Classify_probabilities 64 identity_model
         three_samples = Ok probabilities
    /\ (0 < mat.n_rows (SoftmaxRegression.parameters identity_model))%nat
    /\ (2 < mat.n_cols three_samples)%nat
    /\ SoftmaxRegression.first_argmax (mat.col probabilities 2)
         (nth 2 labels 0%nat).
Proof.
  eexists. eexists.
  assert (Hrows :
            (0 < mat.n_rows (SoftmaxRegression.parameters identity_model))%nat)
    by (simpl; lia).
  assert (Hcols : (2 < mat.n_cols three_samples)%nat)
    by (unfold mat.n_cols; simpl; lia).
  split; [reflexivity |]. split; [reflexivity |].
  split; [exact Hrows |]. split; [exact Hcols |].
  exact (proj2 (proj2 (Classify_labels_argmax_probabilities 64 identity_model
                         three_samples))
               _ _ 2%nat eq_refl eq_refl Hrows Hcols).
Defined.

Lemma Classify_probabilities_normalized_witness :
  (0 < mat.n_rows (SoftmaxRegression.parameters identity_model))%nat
  /\ Z.of_nat (mat.n_rows three_samples)
     = SoftmaxRegression.FeatureSize 64 identity_model
  /\ exists labels probabilities,
       SoftmaxRegression.Classify_probabilities 64 identity_model
         three_samples = Ok probabilities
       /\ SoftmaxRegression.Classify_labels_probabilities 64 identity_model
            three_samples = Ok (labels, probabilities)
       /\ mat.n_cols probabilities = mat.n_cols three_samples
       /\ forall i, (i < mat.n_cols three_samples)%nat ->
            arma.accu (mat.col probabilities i) = 1
            /\ mat.col probabilities i
               = map (SoftmaxRegression.Probability
                        (SoftmaxRegression.parameters identity_model)
                        (SoftmaxRegression.fitIntercept identity_model)
                        (mat.col three_samples i))
                     (seq 0 (mat.n_rows
                               (SoftmaxRegression.parameters identity_model))).
Proof.
  assert (Hrows :
            (0 < mat.n_rows (SoftmaxRegression.parameters identity_model))%nat)
    by (simpl; lia).
  assert (Hdim : Z.of_nat (mat.n_rows three_samples)
                 = SoftmaxRegression.FeatureSize 64 identity_model)
    by reflexivity.
  split; [exact Hrows |]. split; [exact Hdim |].
  exact (Classify_probabilities_normalized 64 identity_model three_samples
           Hrows Hdim).
Defined.

(** * Further properties of [ExponentialLoss::Calculate] *)

Section ExponentialLossShape.

Import ExponentialLoss.

(** ** The exponential and quotients *)

Lemma exp_le_mono (x y : R) : x <= y -> exp x <= exp y.
Proof.
  intros [Hlt | ->]; [left; now apply exp_increasing | right; reflexivity].
Qed.

Lemma exp_nonpos_le_1 (y : R) : y <= 0 -> exp y <= 1.
Proof. intros Hy. rewrite <- exp_0. now apply exp_le_mono. Qed.

Lemma quotient_le (a b d : R) : 0 < d -> a <= b -> a / d <= b / d.
Proof.
  intros Hd Hab. unfold Rdiv.
  apply Rmult_le_compat_r; [left; now apply Rinv_0_lt_compat | exact Hab].
Qed.


(** ** Lists *)

Lemma nth_map_lt (A B : Type) (f : A -> B) (l : list A) (i : nat) (d : A)
    (d' : B) :
  (i < length l)%nat -> nth i (map f l) d' = f (nth i l d).
Proof.
  intros Hi. rewrite (nth_indep _ d' (f d)) by (now rewrite length_map).
  apply map_nth.
Qed.


(** ** [Calculate] by the sign of the maximum *)

(** With a maximum entry other than zero the denominator is that entry. *)
Lemma Calculate_nonzero_max (e : arma.vec) (m : R) :
  In m e -> Forall (fun x => x <= m) e -> m <> 0 ->
  Calculate e = Ok (map (fun e_i => 1 - exp (- Rabs e_i / m)) e).
Proof.
  intros Hin Hall Hm.
  destruct (Calculate_of_max e m (arma_max_complete e m Hin Hall))
    as (_ & ->).
  destruct (Req_dec_T m 0); [contradiction | reflexivity].
Qed.

(** With a maximum entry that is not negative the denominator is
    positive. *)
Lemma Calculate_nonneg_max (e : arma.vec) (m : R) :
  In m e -> Forall (fun x => x <= m) e -> 0 <= m ->
  exists d,
    0 < d /\ (0 < m -> d = m)
    /\ Calculate e = Ok (map (fun e_i => 1 - exp (- Rabs e_i / d)) e).
Proof.
  intros Hin Hall Hm.
  destruct (Calculate_of_max e m (arma_max_complete e m Hin Hall))
    as (_ & ->).
  destruct (Req_dec_T m 0) as [Hz | Hnz].
  - exists 1. repeat split; [lra | intros; lra].
  - exists m. repeat split; lra.
Qed.



(** X2.  When no entry exceeds the positive maximum [m] in absolute value
    (as for a vector of absolute errors), every loss lies in
    [[0, 1 - exp(-1)]], and the bound is the loss of the maximum entry. *)
Theorem Calculate_largest_loss (e : arma.vec) (m : R) :
  In m e -> Forall (fun x => Rabs x <= m) e -> 0 < m ->
  exists loss,
    Calculate e = Ok loss
    /\ Forall (fun l => 0 <= l <= 1 - exp (-1)) loss
    /\ In (1 - exp (-1)) loss.
Proof.
  intros Hin Habs Hm.
  assert (Hall : Forall (fun x => x <= m) e).
  { revert Habs. apply Forall_impl. intros x Hx.
    assert (H := Rle_abs x). lra. }
  assert (Hnz : m <> 0) by lra.
  rewrite (Calculate_nonzero_max e m Hin Hall Hnz).
  eexists. split; [reflexivity |]. split.
  - apply Forall_map. revert Habs. apply Forall_impl. intros x Hx.
    assert (Hlo : - Rabs x / m <= 0).
    { replace 0 with (0 / m) by (unfold Rdiv; ring).
      apply quotient_le; [exact Hm |]. assert (H := Rabs_pos x). lra. }
    assert (Hhi : -1 <= - Rabs x / m).
    { replace (-1) with (- m / m) by (field; lra).
      apply quotient_le; [exact Hm | lra]. }
    assert (H1 := exp_nonpos_le_1 _ Hlo).
    assert (H2 := exp_le_mono _ _ Hhi).
    lra.
  - apply in_map_iff. exists m. split; [| exact Hin].
    rewrite (Rabs_right m) by lra.
    replace (- m / m) with (-1) by (field; lra). reflexivity.
Qed.

Lemma Calculate_largest_loss_witness :
  In 4 [1; 4; 2] /\ Forall (fun x => Rabs x <= 4) [1; 4; 2] /\ 0 < 4
  /\ exists loss,
       Calculate [1; 4; 2] = Ok loss
       /\ Forall (fun l => 0 <= l <= 1 - exp (-1)) loss
       /\ In (1 - exp (-1)) loss.
Proof.
  assert (Hin : In 4 [1; 4; 2]) by (simpl; auto).
  assert (Habs : Forall (fun x => Rabs x <= 4) [1; 4; 2])
    by (repeat constructor; rewrite Rabs_right; lra).
  assert (Hm : 0 < 4) by lra.
  split; [exact Hin | split; [exact Habs | split; [exact Hm |]]].
  exact (Calculate_largest_loss [1; 4; 2] 4 Hin Habs Hm).
Defined.



End ExponentialLossShape.

(** * How [ExponentialLoss::Calculate] orders and transforms *)

Section ExponentialLossOrder.

Import ExponentialLoss.

(** X4.  When the maximum entry is not negative, the loss grows with the
    absolute error: an entry of no greater absolute value gets no greater
    loss. *)
Theorem Calculate_monotone_nonneg_max (e : arma.vec) (m : R) :
  In m e -> Forall (fun x => x <= m) e -> 0 <= m ->
  exists loss,
    Calculate e = Ok loss
    /\ forall i j, (i < length e)%nat -> (j < length e)%nat ->
         Rabs (nth i e 0) <= Rabs (nth j e 0) ->
         nth i loss 0 <= nth j loss 0.
Proof.
  intros Hin Hall Hm.
  destruct (Calculate_nonneg_max e m Hin Hall Hm) as (d & Hd & _ & Hcalc).
  eexists. split; [exact Hcalc |].
  intros i j Hi Hj Habs.
  rewrite (nth_map_lt _ _ _ e i 0 0 Hi), (nth_map_lt _ _ _ e j 0 0 Hj).
  assert (Hq : - Rabs (nth j e 0) / d <= - Rabs (nth i e 0) / d)
    by (apply quotient_le; [exact Hd | lra]).
  apply exp_le_mono in Hq. lra.
Qed.

Lemma Calculate_monotone_nonneg_max_witness :
  In 4 [1; 2; 4] /\ Forall (fun x => x <= 4) [1; 2; 4] /\ 0 <= 4
  /\ exists loss,
       Calculate [1; 2; 4] = Ok loss
       /\ forall i j, (i < 3)%nat -> (j < 3)%nat ->
            Rabs (nth i [1; 2; 4] 0) <= Rabs (nth j [1; 2; 4] 0) ->
            nth i loss 0 <= nth j loss 0.
Proof.
  assert (Hin : In 4 [1; 2; 4]) by (simpl; auto).
  assert (Hall : Forall (fun x => x <= 4) [1; 2; 4])
    by (repeat constructor; lra).
  assert (Hm : 0 <= 4) by lra.
  split; [exact Hin | split; [exact Hall | split; [exact Hm |]]].
  exact (Calculate_monotone_nonneg_max [1; 2; 4] 4 Hin Hall Hm).
Defined.

(** X5.  When the maximum entry is negative the order is reversed: an entry
    of no greater absolute value gets no smaller loss. *)
Theorem Calculate_antitone_negative_max (e : arma.vec) (m : R) :
  In m e -> Forall (fun x => x <= m) e -> m < 0 ->
  exists loss,
    Calculate e = Ok loss
    /\ forall i j, (i < length e)%nat -> (j < length e)%nat ->
         Rabs (nth i e 0) <= Rabs (nth j e 0) ->
         nth j loss 0 <= nth i loss 0.
Proof.
  intros Hin Hall Hm.
  assert (Hnz : m <> 0) by lra.
  rewrite (Calculate_nonzero_max e m Hin Hall Hnz).
  eexists. split; [reflexivity |].
  intros i j Hi Hj Habs.
  rewrite (nth_map_lt _ _ _ e i 0 0 Hi), (nth_map_lt _ _ _ e j 0 0 Hj).
  rewrite !negative_denominator by exact Hm.
  assert (Hd : 0 < Rabs m) by (rewrite Rabs_left; lra).
  assert (Hq := quotient_le _ _ _ Hd Habs).
  apply exp_le_mono in Hq. lra.
Qed.

Lemma Calculate_antitone_negative_max_witness :
  In (-1) [-1; -2; -4] /\ Forall (fun x => x <= -1) [-1; -2; -4] /\ -1 < 0
  /\ exists loss,
       Calculate [-1; -2; -4] = Ok loss
       /\ forall i j, (i < 3)%nat -> (j < 3)%nat ->
            Rabs (nth i [-1; -2; -4] 0) <= Rabs (nth j [-1; -2; -4] 0) ->
            nth j loss 0 <= nth i loss 0.
Proof.
  assert (Hin : In (-1) [-1; -2; -4]) by (simpl; auto).
  assert (Hall : Forall (fun x => x <= -1) [-1; -2; -4])
    by (repeat constructor; lra).
  assert (Hm : -1 < 0) by lra.
  split; [exact Hin | split; [exact Hall | split; [exact Hm |]]].
  exact (Calculate_antitone_negative_max [-1; -2; -4] (-1) Hin Hall Hm).
Defined.

(** X6.  Multiplying every error by a positive factor leaves the loss
    vector as it is, provided the maximum entry is not zero. *)
Theorem Calculate_scale_invariant (e : arma.vec) (m k : R) :
  In m e -> Forall (fun x => x <= m) e -> m <> 0 -> 0 < k ->
  Calculate (map (Rmult k) e) = Calculate e.
Proof.
  intros Hin Hall Hm Hk.
  rewrite (Calculate_nonzero_max e m Hin Hall Hm).
  rewrite (Calculate_nonzero_max (map (Rmult k) e) (k * m)).
  - f_equal. rewrite map_map. apply map_ext. intros x.
    rewrite Rabs_mult, (Rabs_right k) by lra.
    f_equal. f_equal. field. split; lra.
  - now apply in_map.
  - apply Forall_map. revert Hall. apply Forall_impl. intros x Hx. nra.
  - intros Hzero. apply Rmult_integral in Hzero. destruct Hzero; lra.
Qed.

Lemma Calculate_scale_invariant_witness :
  In 4 [1; -2; 4] /\ Forall (fun x => x <= 4) [1; -2; 4] /\ 4 <> 0 /\ 0 < 10
  /\ Calculate (map (Rmult 10) [1; -2; 4]) = Calculate [1; -2; 4].
Proof.
  assert (Hin : In 4 [1; -2; 4]) by (simpl; auto).
  assert (Hall : Forall (fun x => x <= 4) [1; -2; 4])
    by (repeat constructor; lra).
  assert (Hm : 4 <> 0) by lra.
  assert (Hk : 0 < 10) by lra.
  split; [exact Hin | split; [exact Hall | split; [exact Hm |]]].
  split; [exact Hk |].
  exact (Calculate_scale_invariant [1; -2; 4] 4 10 Hin Hall Hm Hk).
Defined.

(** X7.  Reordering the errors reorders the losses the same way: the
    denominator does not depend on the order of the entries, and the loss
    vector of a permutation is a permutation of the loss vector. *)
Theorem Calculate_permutation (e e' : arma.vec) :
  Permutation e e' ->
  max_error e = max_error e'
  /\ forall loss, Calculate e = Ok loss ->
       exists loss', Calculate e' = Ok loss' /\ Permutation loss loss'.
Proof.
  intros Hperm.
  destruct e as [| x xs].
  - apply Permutation_nil in Hperm. subst e'.
    split; [reflexivity | intros loss Hloss; discriminate Hloss].
  - destruct (arma_max_nonempty (x :: xs)) as [m Hm]; [discriminate |].
    destruct (arma_max_sound _ _ Hm) as (Hin & Hall).
    assert (Hm' : arma.max e' = Ok m).
    { apply arma_max_complete.
      - exact (Permutation_in _ Hperm Hin).
      - exact (Permutation_Forall Hperm Hall). }
    destruct (Calculate_of_max _ _ Hm) as (Hd & Hcalc).
    destruct (Calculate_of_max _ _ Hm') as (Hd' & Hcalc').
    split; [now rewrite Hd, Hd' |].
    intros loss Hloss. rewrite Hcalc in Hloss. injection Hloss as <-.
    eexists. split; [exact Hcalc' |].
    exact (Permutation_map _ Hperm).
Qed.

Lemma Calculate_permutation_witness :
  Permutation [1; 4; 2] [4; 1; 2]
  /\ max_error [1; 4; 2] = max_error [4; 1; 2]
  /\ forall loss, Calculate [1; 4; 2] = Ok loss ->
       exists loss', Calculate [4; 1; 2] = Ok loss' /\ Permutation loss loss'.
Proof.
  assert (Hperm : Permutation [1; 4; 2] [4; 1; 2]) by apply perm_swap.
  split; [exact Hperm |].
  exact (Calculate_permutation [1; 4; 2] [4; 1; 2] Hperm).
Defined.

(** X8.  On a vector whose entries are all the same the loss does not
    depend on their size, only on their sign: [1 - exp(-1)] throughout for
    a positive entry, [1 - exp(1)] for a negative one, [0] for zero. *)
Theorem Calculate_uniform (c : R) (n : nat) :
  Calculate (repeat c (S n))
  = Ok (repeat (if Rlt_dec 0 c then 1 - exp (-1)
                else if Rlt_dec c 0 then 1 - exp 1
                else 0) (S n)).
Proof.
  assert (Hin : In c (repeat c (S n))) by (simpl; auto).
  assert (Hall : Forall (fun x => x <= c) (repeat c (S n))).
  { apply Forall_forall. intros x Hx. apply repeat_spec in Hx. lra. }
  destruct (Calculate_of_max _ _ (arma_max_complete _ _ Hin Hall))
    as (_ & ->).
  rewrite map_repeat. f_equal. f_equal.
  destruct (Rlt_dec 0 c) as [Hpos | Hnpos].
  - destruct (Req_dec_T c 0); [lra |].
    rewrite Rabs_right by lra.
    replace (- c / c) with (-1) by (field; lra). reflexivity.
  - destruct (Rlt_dec c 0) as [Hneg | Hnneg].
    + destruct (Req_dec_T c 0); [lra |].
      rewrite Rabs_left by lra.
      replace (- - c / c) with 1 by (field; lra). reflexivity.
    + assert (Hc : c = 0) by lra. subst c.
      destruct (Req_dec_T 0 0); [| lra].
      rewrite Rabs_R0. replace (- 0 / 1) with 0 by field.
      rewrite exp_0. ring.
Qed.

(** X9.  Appending errors that do not exceed the maximum of a vector leaves
    the losses of the vector's own entries as they were. *)
Theorem Calculate_app_below_max (e e' : arma.vec) (m : R) :
  In m e -> Forall (fun x => x <= m) e -> Forall (fun x => x <= m) e' ->
  exists loss loss',
    Calculate e = Ok loss
    /\ Calculate (e ++ e') = Ok (loss ++ loss')
    /\ length loss = length e /\ length loss' = length e'.
Proof.
  intros Hin Hall Hall'.
  destruct (Calculate_of_max _ _ (arma_max_complete e m Hin Hall))
    as (_ & Hcalc).
  assert (Hin2 : In m (e ++ e')) by (apply in_or_app; now left).
  assert (Hall2 : Forall (fun x => x <= m) (e ++ e'))
    by (apply Forall_app; now split).
  destruct (Calculate_of_max _ _ (arma_max_complete _ m Hin2 Hall2))
    as (_ & Hcalc2).
  rewrite map_app in Hcalc2.
  eexists. eexists. split; [exact Hcalc |]. split; [exact Hcalc2 |].
  split; apply length_map.
Qed.

Lemma Calculate_app_below_max_witness :
  In 4 [1; 4] /\ Forall (fun x => x <= 4) [1; 4]
  /\ Forall (fun x => x <= 4) [-7; 3]
  /\ exists loss loss',
       Calculate [1; 4] = Ok loss
       /\ Calculate ([1; 4] ++ [-7; 3]) = Ok (loss ++ loss')
       /\ length loss = length [1; 4] /\ length loss' = length [-7; 3].
Proof.
  assert (Hin : In 4 [1; 4]) by (simpl; auto).
  assert (Hall : Forall (fun x => x <= 4) [1; 4])
    by (repeat constructor; lra).
  assert (Hall' : Forall (fun x => x <= 4) [-7; 3])
    by (repeat constructor; lra).
  split; [exact Hin | split; [exact Hall | split; [exact Hall' |]]].
  exact (Calculate_app_below_max [1; 4] [-7; 3] 4 Hin Hall Hall').
Defined.

End ExponentialLossOrder.

(** * Further properties of [FeatureSize] and [Parameters] *)

Section FeatureSizeFacts.

Import SoftmaxRegression.

Open Scope Z_scope.



(** On [size_t], subtracting one and adding it back is the identity, also
    from zero. *)
Lemma size_t_sub_add_1 (w n : Z) :
  0 <= n < 2 ^ w -> (size_t_sub w n 1 + 1) mod 2 ^ w = n.
Proof.
  intros Hn. unfold size_t_sub.
  rewrite Zplus_mod_idemp_l.
  replace (n - 1 + 1) with n by lia.
  apply Z.mod_small. exact Hn.
Qed.

(** X11.  Adding the intercept column back to [FeatureSize()], on [size_t],
    gives the column count of the parameter matrix, the wrapped case
    included. *)
Theorem FeatureSize_plus_intercept (w : Z) (s : t) :
  Z.of_nat (mat.n_cols (parameters s)) < 2 ^ w ->
  (FeatureSize w s + (if fitIntercept s then 1 else 0)) mod 2 ^ w
  = Z.of_nat (mat.n_cols (parameters s)).
Proof.
  intros Hn. unfold FeatureSize.
  destruct (fitIntercept s).
  - apply size_t_sub_add_1. lia.
  - rewrite Z.add_0_r. apply Z.mod_small. lia.
Qed.

Lemma FeatureSize_plus_intercept_witness :
  Z.of_nat (mat.n_cols (parameters (Build mat.empty 0 0 0%R true))) < 2 ^ 64
  /\ (FeatureSize 64 (Build mat.empty 0 0 0%R true)
      + (if fitIntercept (Build mat.empty 0 0 0%R true) then 1 else 0))
     mod 2 ^ 64
     = Z.of_nat (mat.n_cols (parameters (Build mat.empty 0 0 0%R true))).
Proof.
  assert (Hn : Z.of_nat (mat.n_cols (parameters (Build mat.empty 0 0 0%R true)))
               < 2 ^ 64) by (simpl; lia).
  split; [exact Hn |].
  exact (FeatureSize_plus_intercept 64 (Build mat.empty 0 0 0%R true) Hn).
Defined.

(** X12.  Assigning a matrix through [Parameters()] replaces the parameter
    matrix and nothing else: [numClasses], [inputSize], [lambda] and
    [fitIntercept] keep their values, whatever the shape of the new matrix,
    and [FeatureSize()] follows the new matrix, not [inputSize]. *)
Theorem Parameters_assignment (w : Z) (s : t) (m : mat.t) :
  get Parameters (set Parameters m s) = m
  /\ get NumClasses (set Parameters m s) = get NumClasses s
  /\ inputSize (set Parameters m s) = inputSize s
  /\ get Lambda (set Parameters m s) = get Lambda s
  /\ FitIntercept (set Parameters m s) = FitIntercept s
  /\ (Z.of_nat (mat.n_cols m) < 2 ^ w ->
      (FeatureSize w (set Parameters m s)
       + (if FitIntercept s then 1 else 0)) mod 2 ^ w
      = Z.of_nat (mat.n_cols m)).
Proof.
  repeat split.
  intros Hn. unfold FeatureSize, FitIntercept. simpl.
  destruct (fitIntercept s).
  - apply size_t_sub_add_1. lia.
  - rewrite Z.add_0_r. apply Z.mod_small. lia.
Qed.

Lemma Parameters_assignment_witness :
  Z.of_nat (mat.n_cols three_samples) < 2 ^ 64
  /\ (FeatureSize 64 (set Parameters three_samples identity_model)
      + (if FitIntercept identity_model then 1 else 0)) mod 2 ^ 64
     = Z.of_nat (mat.n_cols three_samples)
  /\ inputSize (set Parameters three_samples identity_model) = 2%nat.
Proof.
  assert (Hn : Z.of_nat (mat.n_cols three_samples) < 2 ^ 64)
    by (unfold mat.n_cols; simpl; lia).
  split; [exact Hn |].
  destruct (Parameters_assignment 64 identity_model three_samples)
    as (_ & _ & Hsize & _ & _ & Hfeature).
  split; [exact (Hfeature Hn) | exact Hsize].
Defined.

End FeatureSizeFacts.

(** * Properties of [serialize] *)

Section SerializeFacts.

Import SoftmaxRegression.

(** Saving appends the four members, in the order of the source, and
    leaves the object as it is. *)
Lemma serialize_save (s : t) (before : list nvp) :
  serialize (OArchive before) s
  = Some (OArchive (before
                    ++ [("parameters"%string, AMat (parameters s));
                        ("numClasses"%string, ASize (numClasses s));
                        ("lambda"%string, ADouble (lambda s));
                        ("fitIntercept"%string, ABool (fitIntercept s))]),
          s).
Proof.
  unfold serialize. simpl. rewrite <- !app_assoc. simpl.
  destruct s; reflexivity.
Qed.

(** Loading reads the four members back, in the same order, and keeps the
    [inputSize] of the object it loads into. *)
Lemma serialize_load (s0 : t) (p : mat.t) (n : nat) (x : R) (b : bool)
    (rest : list nvp) :
  serialize (IArchive ([("parameters"%string, AMat p);
                        ("numClasses"%string, ASize n);
                        ("lambda"%string, ADouble x);
                        ("fitIntercept"%string, ABool b)] ++ rest)) s0
  = Some (IArchive rest, Build p (inputSize s0) n x b).
Proof. reflexivity. Qed.

(** X13.  What one object saves another loads: after the round trip
    through an archive the loading object holds the saved [parameters],
    [numClasses], [lambda] and [fitIntercept], and its own [inputSize];
    entries written before, or left to read after, are not touched. *)
Theorem serialize_save_load (s s0 : t) (before rest : list nvp) :
  exists entries,
    serialize (OArchive before) s = Some (OArchive (before ++ entries), s)
    /\ length entries = 4%nat
    /\ serialize (IArchive (entries ++ rest)) s0
       = Some (IArchive rest,
               Build (parameters s) (inputSize s0) (numClasses s) (lambda s)
                     (fitIntercept s)).
Proof.
  eexists. split; [apply serialize_save |].
  split; [reflexivity | apply serialize_load].
Qed.

(** X14.  A model saved and loaded again answers [FeatureSize()],
    [NumClasses()], [Lambda()], [FitIntercept()] and [Parameters()] as the
    saved one did; it is the saved model exactly when the loading object
    had the same [inputSize]. *)
Theorem serialize_round_trip (w : Z) (s s0 : t) :
  exists ar s',
    serialize (OArchive []) s = Some (ar, s)
    /\ serialize (IArchive (written ar)) s0 = Some (IArchive [], s')
    /\ FeatureSize w s' = FeatureSize w s
    /\ get NumClasses s' = get NumClasses s
    /\ get Lambda s' = get Lambda s
    /\ FitIntercept s' = FitIntercept s
    /\ get Parameters s' = get Parameters s
    /\ (s' = s <-> inputSize s0 = inputSize s).
Proof.
  eexists. eexists.
  split; [apply serialize_save |].
  split; [apply (serialize_load s0 _ _ _ _ []) |].
  repeat split.
  - intros Heq. apply (f_equal inputSize) in Heq. exact Heq.
  - intros ->. destruct s; reflexivity.
Qed.

(** X15.  Two objects write the same archive exactly when they agree on
    [parameters], [numClasses], [lambda] and [fitIntercept]: [inputSize]
    leaves no trace in the archive. *)
Theorem serialize_same_archive (s s' : t) :
  (exists ar,
      serialize (OArchive []) s = Some (ar, s)
      /\ serialize (OArchive []) s' = Some (ar, s'))
  <-> (parameters s = parameters s' /\ numClasses s = numClasses s'
       /\ lambda s = lambda s' /\ fitIntercept s = fitIntercept s').
Proof.
  rewrite !serialize_save. simpl. split.
  - intros (ar & H1 & H2).
    injection H1 as <-. injection H2 as Hp Hn Hl Hf.
    repeat split; congruence.
  - intros (Hp & Hn & Hl & Hf).
    eexists. split; [reflexivity |].
    now rewrite Hp, Hn, Hl, Hf.
Qed.

(** X16.  Whatever the archive, and whether it saves or loads, [serialize]
    leaves [inputSize] as it was. *)
Theorem serialize_keeps_inputSize (A : Type) (H : Archive A) (ar ar' : A)
    (s s' : t) :
  serialize ar s = Some (ar', s') -> inputSize s' = inputSize s.
Proof.
  unfold serialize.
  destruct (amp_mat ar "parameters" (parameters s)) as [[ar1 p] |];
    [| discriminate].
  destruct (amp_size_t ar1 "numClasses" (numClasses s)) as [[ar2 n] |];
    [| discriminate].
  destruct (amp_double ar2 "lambda" (lambda s)) as [[ar3 x] |];
    [| discriminate].
  destruct (amp_bool ar3 "fitIntercept" (fitIntercept s)) as [[ar4 b] |];
    [| discriminate].
  intros Heq. injection Heq as _ <-. reflexivity.
Qed.

Lemma serialize_keeps_inputSize_witness :
  serialize (IArchive [("parameters"%string, AMat three_samples);
                       ("numClasses"%string, ASize 7);
                       ("lambda"%string, ADouble 1);
                       ("fitIntercept"%string, ABool true)]) identity_model
  = Some (IArchive [], Build three_samples 2 7 1 true)
  /\ inputSize (Build three_samples 2 7 1 true) = inputSize identity_model.
Proof.
  assert (Hload :
            serialize (IArchive [("parameters"%string, AMat three_samples);
                                 ("numClasses"%string, ASize 7);
                                 ("lambda"%string, ADouble 1);
                                 ("fitIntercept"%string, ABool true)])
                      identity_model
            = Some (IArchive [], Build three_samples 2 7 1 true))
    by reflexivity.
  split; [exact Hload |].
  exact (serialize_keeps_inputSize iarchive iarchive_Archive _ _ _ _ Hload).
Defined.



(** X18.  Two models saved one after the other into one archive are loaded
    back one after the other, each with its own members. *)
Theorem serialize_two_models (s1 s2 t1 t2 : t) :
  exists ar1 ar2 mid t1' t2',
    serialize (OArchive []) s1 = Some (ar1, s1)
    /\ serialize ar1 s2 = Some (ar2, s2)
    /\ serialize (IArchive (written ar2)) t1 = Some (mid, t1')
    /\ serialize mid t2 = Some (IArchive [], t2')
    /\ parameters t1' = parameters s1 /\ numClasses t1' = numClasses s1
    /\ lambda t1' = lambda s1 /\ fitIntercept t1' = fitIntercept s1
    /\ parameters t2' = parameters s2 /\ numClasses t2' = numClasses s2
    /\ lambda t2' = lambda s2 /\ fitIntercept t2' = fitIntercept s2.
Proof.
  do 5 eexists.
  split; [apply serialize_save |].
  split; [apply serialize_save |].
  split; [simpl; apply serialize_load |].
  split; [apply (serialize_load t2 _ _ _ _ []) |].
  repeat split.
Qed.

End SerializeFacts.

(** * [ExponentialLoss::Calculate] at a maximum that is not positive *)

Section ExponentialLossDegenerate.

Import ExponentialLoss.

(** X19.  When the maximum entry [m] is negative, every loss is at most
    [1 - exp(1)], and this is the loss of the maximum entry. *)
Theorem Calculate_negative_max_bound (e : arma.vec) (m : R) :
  In m e -> Forall (fun x => x <= m) e -> m < 0 ->
  exists loss,
    Calculate e = Ok loss
    /\ Forall (fun l => l <= 1 - exp 1) loss
    /\ In (1 - exp 1) loss.
Proof.
  intros Hin Hall Hm.
  assert (Hnz : m <> 0) by lra.
  rewrite (Calculate_nonzero_max e m Hin Hall Hnz).
  eexists. split; [reflexivity |]. split.
  - apply Forall_map. revert Hall. apply Forall_impl. intros x Hx.
    rewrite negative_denominator by exact Hm.
    assert (Hd : 0 < Rabs m) by (rewrite Rabs_left; lra).
    assert (Hq : 1 <= Rabs x / Rabs m).
    { replace 1 with (Rabs m / Rabs m) by (field; lra).
      apply quotient_le; [exact Hd |].
      rewrite (Rabs_left m), (Rabs_left x) by lra. lra. }
    apply exp_le_mono in Hq. lra.
  - apply in_map_iff. exists m. split; [| exact Hin].
    rewrite negative_denominator by exact Hm.
    replace (Rabs m / Rabs m) with 1; [reflexivity |].
    field. rewrite Rabs_left; lra.
Qed.

Lemma Calculate_negative_max_bound_witness :
  In (-2) [-6; -2] /\ Forall (fun x => x <= -2) [-6; -2] /\ -2 < 0
  /\ exists loss,
       Calculate [-6; -2] = Ok loss
       /\ Forall (fun l => l <= 1 - exp 1) loss
       /\ In (1 - exp 1) loss.
Proof.
  assert (Hin : In (-2) [-6; -2]) by (simpl; auto).
  assert (Hall : Forall (fun x => x <= -2) [-6; -2])
    by (repeat constructor; lra).
  assert (Hm : -2 < 0) by lra.
  split; [exact Hin | split; [exact Hall | split; [exact Hm |]]].
  exact (Calculate_negative_max_bound [-6; -2] (-2) Hin Hall Hm).
Defined.

(** X20.  When the maximum entry is exactly zero nothing is normalised:
    the denominator is [1] and the loss of an entry [e_i] is
    [1 - exp(e_i)]. *)
Theorem Calculate_zero_max (e : arma.vec) :
  In 0 e -> Forall (fun x => x <= 0) e ->
  max_error e = Ok 1
  /\ Calculate e = Ok (map (fun e_i => 1 - exp e_i) e).
Proof.
  intros Hin Hall.
  destruct (Calculate_of_max e 0 (arma_max_complete e 0 Hin Hall))
    as (Hd & Hcalc).
  destruct (Req_dec_T 0 0) as [_ | Hne]; [| lra].
  split; [exact Hd |].
  rewrite Hcalc. f_equal.
  apply map_ext_in. intros x Hx.
  rewrite Forall_forall in Hall. specialize (Hall x Hx).
  destruct Hall as [Hlt | ->].
  - rewrite Rabs_left by exact Hlt.
    replace (- - x / 1) with x by field. reflexivity.
  - rewrite Rabs_R0. replace (- 0 / 1) with 0 by field. reflexivity.
Qed.

Lemma Calculate_zero_max_witness :
  In 0 [-3; 0; -1] /\ Forall (fun x => x <= 0) [-3; 0; -1]
  /\ max_error [-3; 0; -1] = Ok 1
  /\ Calculate [-3; 0; -1] = Ok (map (fun e_i => 1 - exp e_i) [-3; 0; -1]).
Proof.
  assert (Hin : In 0 [-3; 0; -1]) by (simpl; auto).
  assert (Hall : Forall (fun x => x <= 0) [-3; 0; -1])
    by (repeat constructor; lra).
  split; [exact Hin | split; [exact Hall |]].
  exact (Calculate_zero_max [-3; 0; -1] Hin Hall).
Defined.

End ExponentialLossDegenerate.
